(** * SvelteKit / D1 / TailwindCSS template: runtime hooks

  The repository ships two pieces of runtime JavaScript:

  - the client hooks file, whose [handleError] turns an unhandled client
    error into a [{ message, code }] record after logging it, and
  - [service-worker.js], which registers an [install] and an [activate]
    listener on the worker's global scope.

  Both are embedded below over a small model of the JavaScript values and
  operators they use.  Effects (the console, the calls made on the worker
  scope, a thrown exception) are explicit: a computation is a function from a
  state to a completion and a new state.  The hook is embedded twice: over
  plain data values, and over values whose property reads may run a getter
  or a proxy trap; the two agree on plain data. *)

From Stdlib Require Import SpecFloat.
From stdpp Require Import gmap strings list.

(** ** JavaScript values and the operators used by the hooks *)

Module JS.

(** Language values.  Numbers are IEEE-754 doubles, kept in the Standard
    Library's specification form.  An object carries its own data properties
    and a link to its prototype; property reads walk that chain.  These are
    the plain data values; objects with accessor properties and proxies,
    whose reads run code, are added on top of them in [Live]. *)
#[warnings="-register-all"]
Inductive value : Type :=
  | VUndefined
  | VNull
  | VBoolean (b : bool)
  | VNumber (n : spec_float)
  | VString (s : string)
  | VObject (o : object)
with object : Type :=
  | Obj (own : gmap string value) (proto : option object).

(** How an evaluation ends: with a value, or with a thrown exception. *)
Inductive completion (A : Type) : Type :=
  | Normal (a : A)
  | Throw (exn : value).
Arguments Normal {A} a.
Arguments Throw {A} exn.

(** Computations over a state [S]. *)
Definition m (S A : Type) : Type := S → completion A * S.

Definition ret {S A} (a : A) : m S A := λ s, (Normal a, s).

Definition bind {S A B} (c : m S A) (k : A → m S B) : m S B :=
  λ s, match c s with
       | (Normal a, s') => k a s'
       | (Throw e, s') => (Throw e, s')
       end.

Definition throw {S A} (e : value) : m S A := λ s, (Throw e, s).

Definition modify {S} (f : S → S) : m S () := λ s, (Normal (), f s).

#[export] Instance m_ret {S} : MRet (m S) := @ret S.
#[export] Instance m_bind {S} : MBind (m S) := λ A B k c, bind c k.

(** [[[Get]]] on an object: own properties first, then the prototype
    chain; [None] when no object on the chain has the key. *)
Fixpoint get (o : object) (k : string) : option value :=
  match o with
  | Obj own proto =>
      match own !! k with
      | Some v => Some v
      | None => match proto with
                | Some p => get p k
                | None => None
                end
      end
  end.

(** [v === null || v === undefined]. *)
Definition is_nullish (v : value) : bool :=
  match v with
  | VUndefined | VNull => true
  | _ => false
  end.

(** [ToBoolean]: the falsy values are [undefined], [null], [false], [+0],
    [-0], [NaN] and the empty string. *)
Definition to_boolean (v : value) : bool :=
  match v with
  | VUndefined | VNull => false
  | VBoolean b => b
  | VNumber (S754_zero _) | VNumber S754_nan => false
  | VNumber _ => true
  | VString s => negb (String.eqb s "")
  | VObject _ => true
  end.

Definition is_string (v : value) : bool :=
  match v with
  | VString _ => true
  | _ => false
  end.

(** The [TypeError] raised by the language itself. *)
Definition TypeError_prototype : object :=
  Obj {[ "name" := VString "TypeError" ]} None.

Definition TypeError (msg : string) : value :=
  VObject (Obj {[ "message" := VString msg ]} (Some TypeError_prototype)).

(** Member access [v.k].  Reading from [null] or [undefined] throws.  A
    boolean, number or string is read through its wrapper prototype; the
    hooks only read the keys [error], [event] and [code], which no wrapper
    prototype defines, so such a read gives [undefined]. *)
Definition member {S} (v : value) (k : string) : m S value :=
  match v with
  | VUndefined | VNull =>
      throw (TypeError ("Cannot read properties of null or undefined (reading '" +:+ k +:+ "')"))
  | VObject o => mret (default VUndefined (get o k))
  | VBoolean _ | VNumber _ | VString _ => mret VUndefined
  end.

(** Optional chaining [v?.k]: short-circuits to [undefined] on a nullish
    base and is a plain member access otherwise. *)
Definition optional_member {S} (v : value) (k : string) : m S value :=
  if is_nullish v then mret VUndefined else member v k.

(** Nullish coalescing [l ?? r]: the right operand is evaluated only when
    the left one is [null] or [undefined]. *)
Definition coalesce {S} (l : value) (r : m S value) : m S value :=
  if is_nullish l then r else mret l.

(** Start of an object destructuring pattern: the matched value must be
    object-coercible. *)
Definition require_object_coercible {S} (v : value) : m S () :=
  if is_nullish v
  then throw (TypeError "Cannot destructure a null or undefined value")
  else mret ().

End JS.

Import JS.

(** ** The client hook *)

Module Hooks.

(** The console: every [console.error] call appends its argument list. *)
Definition console : Type := list (list value).

Definition console_error (args : list value) : m console () :=
  modify (λ log, log ++ [args]).

(** The object literal [{ message: ..., code: ... }] returned by the hook. *)
Record app_error : Type := AppError { message : value; code : value }.

(** [[
    export const handleError = ({ error, event }) => {
      console.error('Client error:', error);
      return {
        message: 'An unexpected error occurred.',
        code: error?.code ?? 'UNKNOWN'
      };
    };
    ]] *)
Definition handleError (arg : value) : m console app_error :=
  require_object_coercible arg;;
  error ← member arg "error";
  event ← member arg "event";
  console_error [VString "Client error:"; error];;
  c ← (l ← optional_member error "code"; coalesce l (mret (VString "UNKNOWN")));
  mret {| message := VString "An unexpected error occurred."; code := c |}.

(** The argument the framework calls the hook with: [{ error, event }]. *)
Definition hook_input (error event : value) : value :=
  VObject (Obj {[ "error" := error; "event" := event ]} None).

(** The [code] attribute of an error value as a read sees it: absent on
    [null], [undefined] and primitives, looked up along the prototype chain
    on an object. *)
Definition code_attribute (error : value) : option value :=
  match error with
  | VObject o => get o "code"
  | _ => None
  end.

End Hooks.

Import Hooks.

(** ** The client hook on objects whose reads run code

    A thrown value need not be plain data: a property of the error may be an
    accessor, or the error may be a proxy, and then reading [error.code] runs
    code that can itself throw.  The module below extends the values above
    with such objects and embeds the same hook over them.  A getter or a trap
    is represented by how its call completes; every key is read once. *)

Module Live.

(** A value is plain data, or an object whose properties are data slots or
    getters, or a proxy whose [get] trap answers every read. *)
#[warnings="-register-all"]
Inductive live : Type :=
  | Plain (v : value)
  | Object (own : gmap string slot) (proto : option live)
  | Proxy (trap : string → result)
with slot : Type :=
  | Data (x : live)
  | Getter (g : result)
with result : Type :=
  | Returns (x : live)
  | Throws (exn : live).

Inductive outcome (A : Type) : Type :=
  | Done (a : A)
  | Raised (exn : live).
Arguments Done {A} a.
Arguments Raised {A} exn.

Definition M (S A : Type) : Type := S → outcome A * S.

Definition ret {S A} (a : A) : M S A := λ s, (Done a, s).

Definition bind {S A B} (c : M S A) (k : A → M S B) : M S B :=
  λ s, match c s with
       | (Done a, s') => k a s'
       | (Raised e, s') => (Raised e, s')
       end.

Definition raise {S A} (e : live) : M S A := λ s, (Raised e, s).

Definition modify {S} (f : S → S) : M S () := λ s, (Done (), f s).

#[export] Instance M_ret {S} : MRet (M S) := @ret S.
#[export] Instance M_bind {S} : MBind (M S) := λ A B k c, bind c k.

(** [[[Get]]]: an own data slot gives its value, an own getter is called,
    a proxy runs its trap, and a key that is not own is looked for on the
    prototype; a key found nowhere reads as [undefined].  A plain object is
    read as in [JS.member], and so is a primitive, whose wrapper prototype
    defines none of the keys the hook reads.  On [null] and [undefined],
    where [member] throws and [optional_member] stops before any read, the
    result is [undefined] as well. *)
Fixpoint read (x : live) (k : string) : result :=
  match x with
  | Plain (VObject o) => Returns (Plain (default VUndefined (get o k)))
  | Plain _ => Returns (Plain VUndefined)
  | Object own proto =>
      match own !! k with
      | Some (Data y) => Returns y
      | Some (Getter g) => g
      | None => match proto with
                | Some p => read p k
                | None => Returns (Plain VUndefined)
                end
      end
  | Proxy trap => trap k
  end.

Definition is_nullish (x : live) : bool :=
  match x with
  | Plain v => JS.is_nullish v
  | _ => false
  end.

Definition perform {S} (r : result) : M S live :=
  match r with
  | Returns x => mret x
  | Throws exn => raise exn
  end.

(** Member access [x.k]. *)
Definition member {S} (x : live) (k : string) : M S live :=
  if is_nullish x
  then raise (Plain (TypeError ("Cannot read properties of null or undefined (reading '" +:+ k +:+ "')")))
  else perform (read x k).

(** Optional chaining [x?.k]. *)
Definition optional_member {S} (x : live) (k : string) : M S live :=
  if is_nullish x then mret (Plain VUndefined) else member x k.

(** Nullish coalescing [l ?? r]. *)
Definition coalesce {S} (l : live) (r : M S live) : M S live :=
  if is_nullish l then r else mret l.

Definition require_object_coercible {S} (x : live) : M S () :=
  if is_nullish x
  then raise (Plain (TypeError "Cannot destructure a null or undefined value"))
  else mret ().

Definition console : Type := list (list live).

(** [console.error] records its arguments as they are; it calls no getter
    and no trap. *)
Definition console_error (args : list live) : M console () :=
  modify (λ log, log ++ [args]).

Record app_error : Type := AppError { message : live; code : live }.

(** [[
    export const handleError = ({ error, event }) => {
      console.error('Client error:', error);
      return {
        message: 'An unexpected error occurred.',
        code: error?.code ?? 'UNKNOWN'
      };
    };
    ]] *)
Definition handleError (arg : live) : M console app_error :=
  require_object_coercible arg;;
  error ← member arg "error";
  event ← member arg "event";
  console_error [Plain (VString "Client error:"); error];;
  c ← (l ← optional_member error "code";
       coalesce l (mret (Plain (VString "UNKNOWN"))));
  mret {| message := Plain (VString "An unexpected error occurred."); code := c |}.

(** The argument the framework calls the hook with: [{ error, event }], two
    data properties. *)
Definition hook_input (error event : live) : live :=
  Object {[ "error" := Data error; "event" := Data event ]} None.

(** The framework reporting several errors, one call of the hook each, in
    order. *)
Definition handle_all (event : live) (errors : list live)
  : M console (list app_error) :=
  mapM (λ error, handleError (hook_input error event)) errors.

(** Plain results and consoles, seen as live ones. *)
Definition of_record (r : Hooks.app_error) : app_error :=
  {| message := Plain (Hooks.message r); code := Plain (Hooks.code r) |}.

Definition of_console (log : Hooks.console) : console :=
  map (map Plain) log.

Definition of_run (run : completion Hooks.app_error * Hooks.console)
  : outcome app_error * console :=
  (match run.1 with
   | Normal r => Done (of_record r)
   | Throw exn => Raised (Plain exn)
   end,
   of_console run.2).

End Live.

(** ** service-worker.js *)

Module ServiceWorker.

(** The calls the script makes on the worker's global scope. *)
Inductive action : Type :=
  | SkipWaiting    (* self.skipWaiting() *)
  | ClientsClaim.  (* self.clients.claim() *)

#[export] Instance action_eq_dec : EqDecision action.
Proof. solve_decision. Defined.

(** The two arrow functions of the script, named by the event they are
    registered for. *)
Inductive listener : Type :=
  | InstallListener
  | ActivateListener.

#[export] Instance listener_eq_dec : EqDecision listener.
Proof. solve_decision. Defined.

(** The worker's global scope: the listeners registered per event type, in
    registration order, and the lifecycle calls made so far. *)
Record scope : Type := Scope {
  listeners : gmap string (list listener);
  calls : list action
}.

Definition record_call (a : action) : m scope () :=
  modify (λ s, {| listeners := listeners s; calls := calls s ++ [a] |}).

Definition skipWaiting : m scope () := record_call SkipWaiting.

Definition clients_claim : m scope () := record_call ClientsClaim.

(** [self.addEventListener(type, l)]: appends [l] to the listeners of
    [type]; registering the same callback again for the same type is a
    no-op.  A worker evaluates the script once, which is what the two named
    listeners stand for: a second evaluation would create two new arrow
    functions, which they do not represent. *)
Definition addEventListener (type : string) (l : listener) : m scope () :=
  modify (λ s,
    let ls := default [] (listeners s !! type) in
    if decide (l ∈ ls) then s
    else {| listeners := <[type := ls ++ [l]]> (listeners s); calls := calls s |}).

(** [() => { self.skipWaiting(); }] *)
Definition install_listener : m scope () := skipWaiting.

(** [() => { self.clients.claim(); }] *)
Definition activate_listener : m scope () := clients_claim.

Definition invoke (l : listener) : m scope () :=
  match l with
  | InstallListener => install_listener
  | ActivateListener => activate_listener
  end.

(** Runs the listeners in order.  An exception escaping a listener is
    reported by the runtime and does not stop the remaining ones. *)
Fixpoint invoke_all (ls : list listener) : m scope () :=
  match ls with
  | [] => mret ()
  | l :: ls' => λ s, invoke_all ls' (invoke l s).2
  end.

(** The runtime delivering a lifecycle event of the given type. *)
Definition dispatchEvent (type : string) : m scope () :=
  λ s, invoke_all (default [] (listeners s !! type)) s.

(** [[
    self.addEventListener('install', () => {
      self.skipWaiting();
    });

    self.addEventListener('activate', () => {
      self.clients.claim();
    });
    ]] *)
Definition service_worker : m scope () :=
  addEventListener "install" InstallListener;;
  addEventListener "activate" ActivateListener.

(** The scope the script is evaluated in, and the listener table it leaves. *)
Definition fresh_scope : scope := {| listeners := ∅; calls := [] |}.

Definition registered : gmap string (list listener) :=
  listeners (service_worker fresh_scope).2.

(** The call a listener makes when invoked. *)
Definition call_of (l : listener) : action :=
  match l with
  | InstallListener => SkipWaiting
  | ActivateListener => ClientsClaim
  end.

(** How many times an action occurs among the calls. *)
Definition times (a : action) (l : list action) : nat :=
  length (filter (λ x, x = a) l).

End ServiceWorker.

Import ServiceWorker.

(** ** Reference values and sample inputs *)

(** The value of [error?.code ?? 'UNKNOWN'], read off the attribute. *)
Definition code_or_unknown (error : value) : value :=
  match code_attribute error with
  | Some v => if is_nullish v then VString "UNKNOWN" else v
  | None => VString "UNKNOWN"
  end.

(** What the hook returns when no code can be read. *)
Definition unknown_error : app_error :=
  {| message := VString "An unexpected error occurred.";
     code := VString "UNKNOWN" |}.

(** An error object with its own [message: "boom"] whose [code: "E_FETCH"]
    sits on its prototype. *)
Definition error_with_inherited_code : object :=
  Obj {[ "message" := VString "boom" ]}
      (Some (Obj {[ "code" := VString "E_FETCH" ]} None)).

Definition sample_error : value := VObject error_with_inherited_code.

(** [{ message: "boom" }] *)
Definition error_without_code : object :=
  Obj {[ "message" := VString "boom" ]} None.

(** [{ code: null }] *)
Definition error_with_null_code : object :=
  Obj {[ "code" := VNull ]} None.

(** [{ code: 20 }], a numeric code as legacy DOM exceptions carry. *)
Definition error_with_numeric_code : object :=
  Obj {[ "code" := VNumber (S754_finite false 5 2) ]} None.

(** [{ code: "" }] *)
Definition error_with_empty_code : object :=
  Obj {[ "code" := VString "" ]} None.

(** ** Callers and derived notions *)

(** [typeof v === 'object' && v !== null]: the values a property can be
    found on. *)
Definition is_object (v : value) : bool :=
  match v with
  | VObject _ => true
  | _ => false
  end.

(** The record returned by the hook, as the object value the caller gets. *)
Definition as_value (r : app_error) : value :=
  VObject (Obj {[ "message" := message r; "code" := code r ]} None).

(** The runtime delivering a sequence of events, first to last. *)
Fixpoint dispatch_all (types : list string) : m scope () :=
  match types with
  | [] => mret ()
  | type :: types' => dispatchEvent type;; dispatch_all types'
  end.

(** The lifecycle calls one event of the given type is expected to cause. *)
Definition lifecycle_calls (type : string) : list action :=
  if decide (type = "install") then [SkipWaiting]
  else if decide (type = "activate") then [ClientsClaim]
  else [].

(** An error whose own [code: null] hides the ["E_FETCH"] of its prototype. *)
Definition error_with_hidden_code : object :=
  Obj {[ "code" := VNull ]} (Some (Obj {[ "code" := VString "E_FETCH" ]} None)).

(** ** Sample inputs whose reads run code *)

(** What the sample getter and the sample trap throw. *)
Definition getter_exception : Live.live :=
  Live.Plain (VString "code is not readable").

(** [{ message: "boom", get code() { throw "code is not readable"; } }] *)
Definition error_with_throwing_code : Live.live :=
  Live.Object {[ "message" := Live.Data (Live.Plain (VString "boom"));
                 "code" := Live.Getter (Live.Throws getter_exception) ]} None.

(** [{ get code() { return "E_GETTER"; } }] *)
Definition error_with_code_getter : Live.live :=
  Live.Object {[ "code" := Live.Getter (Live.Returns (Live.Plain (VString "E_GETTER"))) ]}
              None.

(** [new Proxy({}, { get() { throw "code is not readable"; } })] *)
Definition throwing_proxy : Live.live :=
  Live.Proxy (λ _, Live.Throws getter_exception).


(** ** Evaluation on samples *)

Example handleError_sample :
  handleError (hook_input sample_error VNull) [] =
  (Normal {| message := VString "An unexpected error occurred.";
             code := VString "E_FETCH" |},
   [[VString "Client error:"; sample_error]]).
Proof. reflexivity. Qed.

Example handleError_no_argument :
  ∃ e, handleError VUndefined [] = (Throw e, []).
Proof. eexists. reflexivity. Qed.

Example service_worker_registers :
  registered = {[ "install" := [InstallListener]; "activate" := [ActivateListener] ]}.
Proof. vm_compute. reflexivity. Qed.

Example install_then_activate :
  calls ((service_worker;; dispatchEvent "install";; dispatchEvent "activate") fresh_scope).2
  = [SkipWaiting; ClientsClaim].
Proof. vm_compute. reflexivity. Qed.

(** ** The client hook: what a call computes *)

Section HandleError.

Implicit Types (error event v : value) (o : object) (log : console).

Lemma hook_input_error error event :
  get (Obj {[ "error" := error; "event" := event ]} None) "error" = Some error.
Proof. cbn [get]. by rewrite lookup_insert_eq. Qed.

Lemma hook_input_event error event :
  get (Obj {[ "error" := error; "event" := event ]} None) "event" = Some event.
Proof.
  cbn [get]. rewrite lookup_insert_ne; [|done].
  by rewrite lookup_singleton_eq.
Qed.

(** The expression [error?.code ?? 'UNKNOWN'] never throws and leaves the
    console alone. *)
Lemma code_expression error log :
  (l ← optional_member error "code"; coalesce l (mret (VString "UNKNOWN"))) log
  = (Normal (code_or_unknown error), log).
Proof.
  unfold code_or_unknown, code_attribute.
  destruct error as [| | b | n | s | o]; try reflexivity.
  cbn. unfold mbind, m_bind, bind, mret, m_ret, ret. cbn.
  destruct (get o "code") as [v|]; [|reflexivity].
  destruct v; reflexivity.
Qed.

(** A call on any object argument: the error is whatever its [error]
    property reads as. *)
Lemma handleError_object o log :
  handleError (VObject o) log =
  (Normal {| message := VString "An unexpected error occurred.";
             code := code_or_unknown (default VUndefined (get o "error")) |},
   log ++ [[VString "Client error:"; default VUndefined (get o "error")]]).
Proof.
  unfold handleError.
  unfold mbind at 1 2 3 4 5. unfold m_bind, bind. cbn.
  pose proof (code_expression (default VUndefined (get o "error"))
                (log ++ [[VString "Client error:"; default VUndefined (get o "error")]])) as H.
  unfold mbind, m_bind, bind in H |- *. rewrite H. reflexivity.
Qed.

Lemma handleError_hook_input error event log :
  handleError (hook_input error event) log =
  (Normal {| message := VString "An unexpected error occurred.";
             code := code_or_unknown error |},
   log ++ [[VString "Client error:"; error]]).
Proof.
  unfold hook_input. rewrite handleError_object, hook_input_error. reflexivity.
Qed.

(** Without the argument object the parameter pattern itself throws. *)
Lemma handleError_nullish_argument arg log :
  is_nullish arg = true → ∃ e, handleError arg log = (Throw e, log).
Proof. destruct arg; intros [=]; eexists; reflexivity. Qed.

(** A plain [error.code] in place of [error?.code] would throw on a missing
    error. *)
Lemma member_nullish_throws error log :
  is_nullish error = true → ∃ e, member error "code" log = (Throw e, log).
Proof. destruct error; intros [=]; eexists; reflexivity. Qed.

End HandleError.

(** ** The client hook: properties of the returned record *)

Section HandleErrorProperties.

Implicit Types (error event V : value) (o : object) (log : console).

(** Runs the hook on a framework call and opens the returned record. *)
Ltac run_hook :=
  rewrite handleError_hook_input; eexists; split; [reflexivity|];
  cbn [code message]; unfold code_or_unknown, code_attribute.

(** C1, as stated, fails on [{ code: null }]: the attribute is set to [null]
    and the hook returns ["UNKNOWN"] instead. *)
Lemma handleError_null_code_counterexample :
  get error_with_null_code "code" = Some VNull
  ∧ (handleError (hook_input (VObject error_with_null_code) VUndefined) []).1
    = Normal unknown_error
  ∧ code unknown_error ≠ VNull.
Proof. split; [reflexivity|]. split; [reflexivity|]. discriminate. Qed.

(** C1 (amended): for an error object whose [code] attribute is set to a
    value [V] other than [null] and [undefined], the hook returns a record
    whose [code] field is [V]. *)
Theorem handleError_code_present o V event log :
  get o "code" = Some V →
  is_nullish V = false →
  ∃ r, (handleError (hook_input (VObject o) event) log).1 = Normal r
       ∧ code r = V.
Proof. intros Hget Hnn. run_hook. by rewrite Hget, Hnn. Qed.

(** The amended C1 at an error that inherits [code: "E_FETCH"]. *)
Lemma handleError_code_present_witness :
  get error_with_inherited_code "code" = Some (VString "E_FETCH")
  ∧ is_nullish (VString "E_FETCH") = false
  ∧ ∃ r, (handleError (hook_input sample_error VNull) []).1 = Normal r
         ∧ code r = VString "E_FETCH".
Proof.
  split; [reflexivity|]. split; [reflexivity|].
  apply (handleError_code_present error_with_inherited_code
           (VString "E_FETCH") VNull []); reflexivity.
Defined.

(** C2: for an error object lacking a [code] attribute, the hook returns a
    record whose [code] field is the string ["UNKNOWN"]. *)
Theorem handleError_code_absent o event log :
  get o "code" = None →
  ∃ r, (handleError (hook_input (VObject o) event) log).1 = Normal r
       ∧ code r = VString "UNKNOWN".
Proof. intros Hget. run_hook. by rewrite Hget. Qed.

(** C2 at [{ message: "boom" }]. *)
Lemma handleError_code_absent_witness :
  get error_without_code "code" = None
  ∧ ∃ r, (handleError (hook_input (VObject error_without_code) VNull) []).1 = Normal r
         ∧ code r = VString "UNKNOWN".
Proof.
  split; [reflexivity|].
  apply (handleError_code_absent error_without_code VNull []); reflexivity.
Defined.

(** C3: whatever the error value and the event descriptor, the [message]
    field of the returned record is the fixed string
    ["An unexpected error occurred."]. *)
Theorem handleError_message_fixed error event log :
  ∃ r, (handleError (hook_input error event) log).1 = Normal r
       ∧ message r = VString "An unexpected error occurred.".
Proof. run_hook. reflexivity. Qed.

(** On plain data the hook always completes with a record, after its one
    console entry. *)
Lemma handleError_plain_completes error event log :
  ∃ r, handleError (hook_input error event) log
       = (Normal r, log ++ [[VString "Client error:"; error]]).
Proof. rewrite handleError_hook_input. eexists. reflexivity. Qed.

(** C5, as stated, fails on [{ code: 20 }]: the numeric code is returned as
    it is, and it is not a string. *)
Lemma handleError_numeric_code_counterexample :
  (handleError (hook_input (VObject error_with_numeric_code) VUndefined) []).1
  = Normal {| message := VString "An unexpected error occurred.";
              code := VNumber (S754_finite false 5 2) |}
  ∧ is_string (VNumber (S754_finite false 5 2)) = false.
Proof. split; reflexivity. Qed.

(** C5 (amended): the [code] field is the string ["UNKNOWN"] when the error's
    [code] attribute is absent, [null] or [undefined], and the attribute's
    value unchanged otherwise; so it is a string exactly when the attribute
    is absent, nullish or itself a string. *)
Theorem handleError_code_string_iff error event log :
  ∃ r, (handleError (hook_input error event) log).1 = Normal r
       ∧ code r = code_or_unknown error
       ∧ is_string (code r)
         = match code_attribute error with
           | Some V => is_nullish V || is_string V
           | None => true
           end.
Proof.
  run_hook. split; [reflexivity|].
  destruct error as [| | b | n | s | o]; try reflexivity.
  destruct (get o "code") as [[]|]; reflexivity.
Qed.

(** C8: the returned record does not depend on the event descriptor: two
    calls with the same error and different events return the same record
    (and leave the same console). *)
Theorem handleError_event_irrelevant error event1 event2 log :
  ∃ r, (handleError (hook_input error event1) log).1 = Normal r
       ∧ (handleError (hook_input error event2) log).1 = Normal r
       ∧ handleError (hook_input error event1) log
         = handleError (hook_input error event2) log.
Proof. rewrite !handleError_hook_input. eexists. repeat split. Qed.

(** C9: when the error itself is [null] or [undefined], or the argument has
    no [error] property at all, the hook still returns
    [{ message: "An unexpected error occurred.", code: "UNKNOWN" }]; reading
    [code] through [?.] does not fail. *)
Theorem handleError_missing_error event log :
  (handleError (hook_input VNull event) log).1 = Normal unknown_error
  ∧ (handleError (hook_input VUndefined event) log).1 = Normal unknown_error
  ∧ (handleError (VObject (Obj {[ "event" := event ]} None)) log).1
    = Normal unknown_error.
Proof.
  rewrite !handleError_hook_input, handleError_object. cbn [get].
  rewrite lookup_singleton_ne by done. repeat split.
Qed.

(** C10: a [code] attribute that is present and not nullish is returned
    unchanged, falsy values such as [""], [0] and [false] included: for
    these the result differs from the ["UNKNOWN"] fallback.  The fallback
    can therefore only come from an absent or nullish attribute. *)
Theorem handleError_falsy_code_kept error V event log :
  code_attribute error = Some V →
  is_nullish V = false →
  ∃ r, (handleError (hook_input error event) log).1 = Normal r
       ∧ code r = V
       ∧ (to_boolean V = false → code r ≠ VString "UNKNOWN").
Proof.
  intros Hattr Hnn. rewrite handleError_hook_input.
  eexists. split; [reflexivity|]. cbn [code].
  unfold code_or_unknown. rewrite Hattr, Hnn.
  split; [reflexivity|]. intros Hfalsy ->. discriminate.
Qed.

(** C10 at [{ code: "" }]: the empty string is falsy, not nullish, and is
    what the hook returns. *)
Lemma handleError_falsy_code_kept_witness :
  code_attribute (VObject error_with_empty_code) = Some (VString "")
  ∧ is_nullish (VString "") = false
  ∧ to_boolean (VString "") = false
  ∧ ∃ r, (handleError (hook_input (VObject error_with_empty_code) VNull) []).1 = Normal r
         ∧ code r = VString ""
         ∧ (to_boolean (VString "") = false → code r ≠ VString "UNKNOWN").
Proof.
  split; [reflexivity|]. split; [reflexivity|]. split; [reflexivity|].
  apply (handleError_falsy_code_kept (VObject error_with_empty_code)
           (VString "") VNull []); reflexivity.
Defined.

End HandleErrorProperties.

(** ** The service worker *)

Section ServiceWorkerProperties.

Implicit Types (s : scope) (a b : action) (l : listener) (prior : list action).

Lemma times_snoc a b prior :
  times a (prior ++ [b]) = times a prior + (if decide (b = a) then 1 else 0).
Proof.
  unfold times. rewrite filter_app, length_app. f_equal.
  cbn. destruct (decide (b = a)); reflexivity.
Qed.

Lemma invoke_call l s :
  invoke l s = (Normal (), {| listeners := listeners s; calls := calls s ++ [call_of l] |}).
Proof. destruct l; reflexivity. Qed.

(** Running a list of listeners makes their calls in order and leaves the
    listener table alone. *)
Lemma invoke_all_calls (ls : list listener) s :
  invoke_all ls s
  = (Normal (), {| listeners := listeners s; calls := calls s ++ (call_of <$> ls) |}).
Proof.
  revert s. induction ls as [|l ls IH]; intros s.
  - cbn. rewrite app_nil_r. by destruct s.
  - cbn [invoke_all]. rewrite invoke_call, IH. cbn [snd listeners calls fmap list_fmap].
    by rewrite <- app_assoc.
Qed.

Lemma registered_install : registered !! "install" = Some [InstallListener].
Proof. reflexivity. Qed.

Lemma registered_activate : registered !! "activate" = Some [ActivateListener].
Proof. reflexivity. Qed.

(** Evaluating the script makes no lifecycle call by itself. *)
Lemma service_worker_silent prior :
  calls (service_worker {| listeners := ∅; calls := prior |}).2 = prior.
Proof. reflexivity. Qed.

(** C6: each invocation of the install listener calls [skipWaiting] exactly
    once and makes no other call; the same holds for each [install] event
    delivered to the scope the script has set up, where that listener is the
    only one registered. *)
Theorem install_skipWaiting_exactly_once s :
  install_listener s
  = (Normal (), {| listeners := listeners s; calls := calls s ++ [SkipWaiting] |})
  ∧ times SkipWaiting (calls (install_listener s).2) = S (times SkipWaiting (calls s))
  ∧ times ClientsClaim (calls (install_listener s).2) = times ClientsClaim (calls s)
  ∧ dispatchEvent "install" {| listeners := registered; calls := calls s |}
    = (Normal (), {| listeners := registered; calls := calls s ++ [SkipWaiting] |}).
Proof.
  split; [reflexivity|]. cbn [install_listener skipWaiting record_call modify snd calls].
  rewrite !times_snoc. split; [|split].
  - rewrite decide_True by done. lia.
  - rewrite decide_False by done. lia.
  - unfold dispatchEvent. cbn [listeners]. rewrite registered_install.
    cbn [default]. by rewrite invoke_all_calls.
Qed.

(** C7: each invocation of the activate listener calls [clients.claim]
    exactly once and makes no other call; the same holds for each [activate]
    event delivered to the scope the script has set up. *)
Theorem activate_clients_claim_exactly_once s :
  activate_listener s
  = (Normal (), {| listeners := listeners s; calls := calls s ++ [ClientsClaim] |})
  ∧ times ClientsClaim (calls (activate_listener s).2) = S (times ClientsClaim (calls s))
  ∧ times SkipWaiting (calls (activate_listener s).2) = times SkipWaiting (calls s)
  ∧ dispatchEvent "activate" {| listeners := registered; calls := calls s |}
    = (Normal (), {| listeners := registered; calls := calls s ++ [ClientsClaim] |}).
Proof.
  split; [reflexivity|]. cbn [activate_listener clients_claim record_call modify snd calls].
  rewrite !times_snoc. split; [|split].
  - rewrite decide_True by done. lia.
  - rewrite decide_False by done. lia.
  - unfold dispatchEvent. cbn [listeners]. rewrite registered_activate.
    cbn [default]. by rewrite invoke_all_calls.
Qed.

End ServiceWorkerProperties.

(** ** The client hook: further properties *)

Section HandleErrorFurther.

Implicit Types (error event arg V : value) (o : object) (log : console).

Lemma code_or_unknown_not_nullish error :
  is_nullish (code_or_unknown error) = false.
Proof.
  unfold code_or_unknown.
  destruct (code_attribute error) as [v|]; [|reflexivity].
  destruct (is_nullish v) eqn:E; [reflexivity|exact E].
Qed.

Lemma code_attribute_as_value (r : app_error) :
  code_attribute (as_value r) = Some (code r).
Proof.
  unfold as_value, code_attribute. cbn [get].
  rewrite lookup_insert_ne by done. by rewrite lookup_singleton_eq.
Qed.

(** X1: whatever the error, the [code] of the returned record is never
    [null] or [undefined]. *)
Theorem handleError_code_never_nullish error event log :
  ∃ r, (handleError (hook_input error event) log).1 = Normal r
       ∧ is_nullish (code r) = false.
Proof.
  rewrite handleError_hook_input. eexists. split; [reflexivity|].
  cbn [code]. apply code_or_unknown_not_nullish.
Qed.

(** X3: an error that is not an object (a thrown string, number or boolean,
    [null], [undefined]) always gives the ["UNKNOWN"] record. *)
Theorem handleError_primitive_error error event log :
  is_object error = false →
  (handleError (hook_input error event) log).1 = Normal unknown_error.
Proof.
  intros Hprim. rewrite handleError_hook_input.
  destruct error; [reflexivity..|discriminate].
Qed.

(** X3 at the thrown string ["oops"]. *)
Lemma handleError_primitive_error_witness :
  is_object (VString "oops") = false
  ∧ (handleError (hook_input (VString "oops") VNull) []).1 = Normal unknown_error.
Proof.
  split; [reflexivity|].
  apply (handleError_primitive_error (VString "oops") VNull []); reflexivity.
Defined.

(** X4: an own [code] property decides the result alone; the prototype is
    not consulted.  In particular an own [code: null] hides an inherited
    code and gives ["UNKNOWN"]. *)
Theorem handleError_own_code_shadows
    (own : gmap string value) (proto : option object) V event log :
  own !! "code" = Some V →
  ∃ r, (handleError (hook_input (VObject (Obj own proto)) event) log).1 = Normal r
       ∧ code r = if is_nullish V then VString "UNKNOWN" else V.
Proof.
  intros Hown. rewrite handleError_hook_input. eexists. split; [reflexivity|].
  cbn [code]. unfold code_or_unknown, code_attribute. cbn [get].
  by rewrite Hown.
Qed.

(** X4 at an error whose own [code: null] sits above a prototype carrying
    ["E_FETCH"]. *)
Lemma handleError_own_code_shadows_witness :
  ({[ "code" := VNull ]} : gmap string value) !! "code" = Some VNull
  ∧ get error_with_hidden_code "code" = Some VNull
  ∧ ∃ r, (handleError (hook_input (VObject error_with_hidden_code) VNull) []).1
         = Normal r
         ∧ code r = VString "UNKNOWN".
Proof.
  split; [reflexivity|]. split; [reflexivity|].
  apply (handleError_own_code_shadows {[ "code" := VNull ]}
           (Some (Obj {[ "code" := VString "E_FETCH" ]} None)) VNull VNull []).
  reflexivity.
Defined.

(** X7: normalising is idempotent: feeding the returned record back as the
    error of another call returns the same record again. *)
Theorem handleError_idempotent error event event' log log' :
  ∃ r, (handleError (hook_input error event) log).1 = Normal r
       ∧ (handleError (hook_input (as_value r) event') log').1 = Normal r.
Proof.
  rewrite handleError_hook_input. eexists. split; [reflexivity|].
  rewrite handleError_hook_input. cbn [fst]. do 2 f_equal.
  unfold code_or_unknown at 1. rewrite code_attribute_as_value. cbn [code].
  by rewrite code_or_unknown_not_nullish.
Qed.

End HandleErrorFurther.

(** ** The service worker: events beyond a single invocation *)

Section ServiceWorkerFurther.

Implicit Types (type : string) (types : list string) (prior : list action).

Lemma registered_table :
  registered = {[ "install" := [InstallListener]; "activate" := [ActivateListener] ]}.
Proof. vm_compute. reflexivity. Qed.

Lemma registered_other type :
  type ≠ "install" → type ≠ "activate" → registered !! type = None.
Proof.
  intros Hi Ha. rewrite registered_table.
  rewrite lookup_insert_ne by done. by rewrite lookup_singleton_ne.
Qed.

(** One event on the scope the script has set up makes exactly the calls
    [lifecycle_calls] lists for its type. *)
Lemma dispatchEvent_registered type prior :
  dispatchEvent type {| listeners := registered; calls := prior |}
  = (Normal (), {| listeners := registered; calls := prior ++ lifecycle_calls type |}).
Proof.
  unfold dispatchEvent, lifecycle_calls. cbn [listeners].
  destruct (decide (type = "install")) as [->|Hi].
  { rewrite registered_install. cbn [default]. by rewrite invoke_all_calls. }
  destruct (decide (type = "activate")) as [->|Ha].
  { rewrite registered_activate. cbn [default]. by rewrite invoke_all_calls. }
  rewrite registered_other by done. cbn. by rewrite app_nil_r.
Qed.

Lemma times_app a (l1 l2 : list action) :
  times a (l1 ++ l2) = times a l1 + times a l2.
Proof. unfold times. by rewrite filter_app, length_app. Qed.

(** X8: the script handles no event besides [install] and [activate]: an
    event of any other type (a [fetch], a [push], a [message]) makes no
    lifecycle call and changes nothing. *)
Theorem other_events_do_nothing type prior :
  type ≠ "install" →
  type ≠ "activate" →
  dispatchEvent type {| listeners := registered; calls := prior |}
  = (Normal (), {| listeners := registered; calls := prior |}).
Proof.
  intros Hi Ha. rewrite dispatchEvent_registered. unfold lifecycle_calls.
  rewrite !decide_False by done. by rewrite app_nil_r.
Qed.

(** X8 at a [fetch] event. *)
Lemma other_events_do_nothing_witness :
  dispatchEvent "fetch" {| listeners := registered; calls := [SkipWaiting] |}
  = (Normal (), {| listeners := registered; calls := [SkipWaiting] |}).
Proof. apply (other_events_do_nothing "fetch" [SkipWaiting]); done. Defined.

(** Any sequence of events on the scope the script has set up: the listener
    table is kept and the calls of the events are appended in order. *)
Lemma dispatch_all_registered types prior :
  dispatch_all types {| listeners := registered; calls := prior |}
  = (Normal (), {| listeners := registered;
                   calls := prior ++ (types ≫= lifecycle_calls) |}).
Proof.
  revert prior. induction types as [|type types IH]; intros prior.
  - cbn. by rewrite app_nil_r.
  - cbn [dispatch_all]. unfold mbind at 1. unfold m_bind, bind.
    rewrite dispatchEvent_registered, IH. cbn [mbind list_bind].
    by rewrite <- app_assoc.
Qed.

Lemma times_events a types :
  times a (types ≫= lifecycle_calls)
  = length (filter (λ t, lifecycle_calls t = [a]) types).
Proof.
  induction types as [|type types IH]; [reflexivity|].
  cbn [mbind list_bind]. rewrite times_app, IH, filter_cons.
  case_decide as Heq.
  - rewrite Heq. unfold times. rewrite filter_cons, decide_True by done.
    reflexivity.
  - unfold lifecycle_calls in Heq |- * at 1.
    repeat case_decide; destruct a; try congruence; reflexivity.
Qed.

Lemma lifecycle_calls_skipWaiting type :
  lifecycle_calls type = [SkipWaiting] ↔ type = "install".
Proof.
  unfold lifecycle_calls. repeat case_decide; split; congruence.
Qed.

Lemma lifecycle_calls_clients_claim type :
  lifecycle_calls type = [ClientsClaim] ↔ type = "activate".
Proof.
  unfold lifecycle_calls. repeat case_decide; split; congruence.
Qed.

(** X9: over any sequence of events the listeners stay registered and fire
    every time: [skipWaiting] is called once per [install] event of the
    sequence and [clients.claim] once per [activate] event, no more and no
    less. *)
Theorem dispatch_all_counts types prior :
  let after := (dispatch_all types {| listeners := registered; calls := prior |}).2 in
  listeners after = registered
  ∧ times SkipWaiting (calls after)
    = times SkipWaiting prior + length (filter (λ t, t = "install") types)
  ∧ times ClientsClaim (calls after)
    = times ClientsClaim prior + length (filter (λ t, t = "activate") types).
Proof.
  cbn zeta. rewrite dispatch_all_registered. cbn [snd listeners calls].
  rewrite !times_app, !times_events. split; [reflexivity|]. split; f_equal.
  - induction types as [|type types IH]; [reflexivity|].
    rewrite !filter_cons. pose proof (lifecycle_calls_skipWaiting type).
    repeat case_decide; cbn; try rewrite IH; try reflexivity; tauto.
  - induction types as [|type types IH]; [reflexivity|].
    rewrite !filter_cons. pose proof (lifecycle_calls_clients_claim type).
    repeat case_decide; cbn; try rewrite IH; try reflexivity; tauto.
Qed.

(** X10: a worker that loads the script and then receives any sequence of
    events has made exactly the calls of those events, in their order;
    loading the script makes no call by itself. *)
Theorem loaded_worker_calls types :
  (service_worker;; dispatch_all types) fresh_scope
  = (Normal (), {| listeners := registered; calls := types ≫= lifecycle_calls |}).
Proof.
  unfold mbind at 1. unfold m_bind, bind.
  change (service_worker fresh_scope)
    with (Normal (), {| listeners := registered; calls := [] |}).
  cbn iota. by rewrite dispatch_all_registered.
Qed.

End ServiceWorkerFurther.

(** ** The client hook when reads run code *)

Section LiveHandleError.

Import Live.

Implicit Types (x error event arg V : live) (k : string) (log : Live.console).

(** Sequencing after a step whose outcome is known. *)
Lemma bind_done {S A B} (c : M S A) (f : A → M S B) (s s' : S) (a : A) :
  c s = (Done a, s') → (c ≫= f) s = f a s'.
Proof. intros H. unfold mbind, M_bind, Live.bind. by rewrite H. Qed.

Lemma bind_raised {S A B} (c : M S A) (f : A → M S B) (s s' : S) exn :
  c s = (Raised exn, s') → (c ≫= f) s = (Raised exn, s').
Proof. intros H. unfold mbind, M_bind, Live.bind. by rewrite H. Qed.

(** [x?.k] is the read itself: on [null] and [undefined] it gives
    [undefined] without reading. *)
Lemma optional_member_read x k log :
  Live.optional_member x k log = perform (read x k) log.
Proof. destruct x as [[]| |]; reflexivity. Qed.

(** [error?.code ?? 'UNKNOWN']: throws what the read throws, and otherwise
    replaces a nullish result. *)
Lemma live_code_expression error log :
  (l ← Live.optional_member error "code";
   Live.coalesce l (mret (Plain (VString "UNKNOWN")))) log
  = match read error "code" with
    | Returns V =>
        (Done (if Live.is_nullish V then Plain (VString "UNKNOWN") else V), log)
    | Throws exn => (Raised exn, log)
    end.
Proof.
  destruct (read error "code") as [V|exn] eqn:Hread.
  - erewrite bind_done; [|rewrite optional_member_read, Hread; reflexivity].
    unfold Live.coalesce. by destruct (Live.is_nullish V).
  - erewrite bind_raised; [reflexivity|].
    by rewrite optional_member_read, Hread.
Qed.

(** A call on any argument that is not nullish, by what its reads do. *)
Lemma live_handleError_argument arg log :
  Live.is_nullish arg = false →
  Live.handleError arg log
  = match read arg "error" with
    | Throws exn => (Raised exn, log)
    | Returns error =>
        match read arg "event" with
        | Throws exn => (Raised exn, log)
        | Returns _ =>
            let log' := log ++ [[Plain (VString "Client error:"); error]] in
            match read error "code" with
            | Throws exn => (Raised exn, log')
            | Returns V =>
                (Done {| Live.message := Plain (VString "An unexpected error occurred.");
                         Live.code := if Live.is_nullish V
                                      then Plain (VString "UNKNOWN") else V |},
                 log')
            end
        end
    end.
Proof.
  intros Harg. unfold Live.handleError.
  erewrite bind_done;
    [|unfold Live.require_object_coercible; rewrite Harg; reflexivity].
  unfold Live.member. rewrite Harg.
  destruct (read arg "error") as [error|exn]; [|reflexivity].
  erewrite bind_done; [|reflexivity].
  destruct (read arg "event") as [event|exn]; [|reflexivity].
  erewrite bind_done; [|reflexivity].
  erewrite bind_done; [|reflexivity].
  cbn zeta.
  pose proof (live_code_expression error
                (log ++ [[Plain (VString "Client error:"); error]])) as Hcode.
  destruct (read error "code") as [V|exn].
  - by erewrite bind_done; [|exact Hcode].
  - by erewrite bind_raised; [|exact Hcode].
Qed.

Lemma live_handleError_hook_input error event log :
  Live.handleError (Live.hook_input error event) log
  = match read error "code" with
    | Throws exn => (Raised exn, log ++ [[Plain (VString "Client error:"); error]])
    | Returns V =>
        (Done {| Live.message := Plain (VString "An unexpected error occurred.");
                 Live.code := if Live.is_nullish V
                              then Plain (VString "UNKNOWN") else V |},
         log ++ [[Plain (VString "Client error:"); error]])
    end.
Proof.
  rewrite live_handleError_argument by reflexivity.
  unfold Live.hook_input. cbn [read].
  rewrite lookup_insert_eq, lookup_insert_ne by done.
  by rewrite lookup_singleton_eq.
Qed.

(** On plain data the live hook does what [Hooks.handleError] does: same
    completion, same console. *)
Lemma live_handleError_plain (a : value) (plog : Hooks.console) :
  Live.handleError (Plain a) (of_console plog) = of_run (Hooks.handleError a plog).
Proof.
  assert (Hprim : ∀ p, JS.is_nullish p = false → is_object p = false →
            Hooks.handleError p plog
            = (Normal unknown_error, plog ++ [[VString "Client error:"; VUndefined]])).
  { intros [] ??; done. }
  destruct a as [| | b | n | s | o]; try reflexivity.
  1-3: rewrite Hprim, live_handleError_argument by reflexivity;
       unfold of_run, of_console; cbn [fst snd read]; by rewrite map_app.
  rewrite handleError_object, live_handleError_argument by reflexivity.
  cbn [read]. unfold of_run, of_console, of_record, code_or_unknown, code_attribute.
  cbn [fst snd Hooks.message Hooks.code]. rewrite map_app. cbn [map].
  destruct (default VUndefined (get o "error")) as [| | b | n | s | o']; try reflexivity.
  cbn [read]. destruct (get o' "code") as [[]|]; reflexivity.
Qed.

(** Whatever the argument's own reads do, a plain error never makes the
    hook throw. *)
Lemma live_handleError_plain_error (error : value) event log :
  ∃ r, Live.handleError (Live.hook_input (Plain error) event) log
       = (Done r, log ++ [[Plain (VString "Client error:"); Plain error]]).
Proof.
  rewrite live_handleError_hook_input.
  destruct error; cbn [read]; eexists; reflexivity.
Qed.

(** A proxy whose trap throws behaves like the throwing getter. *)
Example handleError_throwing_proxy :
  Live.handleError (Live.hook_input throwing_proxy (Plain VNull)) []
  = (Raised getter_exception, [[Plain (VString "Client error:"); throwing_proxy]]).
Proof. reflexivity. Qed.

(** A throwing [event] getter on the argument stops the call in the
    parameter pattern, before anything is logged. *)
Example handleError_throwing_event :
  Live.handleError
    (Object {[ "error" := Data (Plain VNull);
               "event" := Getter (Throws getter_exception) ]} None) []
  = (Raised getter_exception, []).
Proof. reflexivity. Qed.

(** C4, as stated, fails on an error whose [code] is a throwing getter: the
    hook logs the error and then ends in the getter's exception instead of
    returning a record. *)
Lemma handleError_throwing_getter_counterexample :
  Live.handleError (Live.hook_input error_with_throwing_code (Plain VNull)) []
  = (Raised getter_exception,
     [[Plain (VString "Client error:"); error_with_throwing_code]]).
Proof. reflexivity. Qed.

(** C4 (amended): for every input [{ error, event }] on which reading
    [error.code] completes (no throwing getter, no throwing proxy trap; this
    includes every error made of plain data, [null] and [undefined]), the
    hook runs to completion and returns a [{ message, code }] record without
    raising an exception; its only effect is the one console entry. *)
Theorem handleError_completes_when_code_reads error event log V :
  read error "code" = Returns V →
  ∃ r, Live.handleError (Live.hook_input error event) log
       = (Done r, log ++ [[Plain (VString "Client error:"); error]]).
Proof.
  intros Hread. rewrite live_handleError_hook_input, Hread.
  eexists. reflexivity.
Qed.

(** The amended C4 at an error whose [code] is a getter that returns. *)
Lemma handleError_completes_when_code_reads_witness :
  read error_with_code_getter "code" = Returns (Plain (VString "E_GETTER"))
  ∧ ∃ r, Live.handleError (Live.hook_input error_with_code_getter (Plain VNull)) []
         = (Done r, [] ++ [[Plain (VString "Client error:"); error_with_code_getter]]).
Proof.
  split; [reflexivity|].
  apply (handleError_completes_when_code_reads error_with_code_getter (Plain VNull) []
           (Plain (VString "E_GETTER"))).
  reflexivity.
Defined.

(** X2: called with [null] or [undefined] in place of the argument object,
    the hook throws a [TypeError] from its parameter pattern and logs
    nothing. *)
Theorem handleError_throws_without_argument arg log :
  Live.is_nullish arg = true →
  ∃ msg, Live.handleError arg log = (Raised (Plain (TypeError msg)), log).
Proof.
  destruct arg as [[]| |]; intros [=]; eexists; reflexivity.
Qed.

(** X2 at a call without any argument. *)
Lemma handleError_throws_without_argument_witness :
  Live.is_nullish (Plain VUndefined) = true
  ∧ ∃ msg, Live.handleError (Plain VUndefined) [[Plain VNull]]
           = (Raised (Plain (TypeError msg)), [[Plain VNull]]).
Proof.
  split; [reflexivity|].
  apply (handleError_throws_without_argument (Plain VUndefined) [[Plain VNull]]).
  reflexivity.
Defined.



(** X6: reporting a list of errors whose [code] reads all complete returns
    one record per error, in order, each with the fixed message and the code
    read from its error (["UNKNOWN"] for a nullish one), and appends one
    console entry per error, in order, after the entries already there. *)
Theorem handle_all_in_order_when_codes_read event (errors : list live) log :
  Forall (λ error, ∃ V, read error "code" = Returns V) errors →
  ∃ rs, Live.handle_all event errors log
        = (Done rs, log ++ ((λ error, [Plain (VString "Client error:"); error]) <$> errors))
        ∧ Forall2 (λ error r,
                     Live.message r = Plain (VString "An unexpected error occurred.")
                     ∧ ∃ V, read error "code" = Returns V
                            ∧ Live.code r = if Live.is_nullish V
                                            then Plain (VString "UNKNOWN") else V)
                  errors rs.
Proof.
  unfold Live.handle_all. intros Hall. revert log.
  induction Hall as [|error errors [V Hread] _ IH]; intros log.
  - exists []. split; [|constructor]. cbn. by rewrite app_nil_r.
  - destruct (IH (log ++ [[Plain (VString "Client error:"); error]]))
      as (rs & Hrun & Hrs).
    eexists (_ :: rs). split.
    + cbn [mapM]. erewrite bind_done;
        [|rewrite live_handleError_hook_input, Hread; reflexivity].
      erewrite bind_done; [|exact Hrun].
      cbn. by rewrite <- app_assoc.
    + constructor; [|exact Hrs]. split; [reflexivity|]. by exists V.
Qed.

(** X6 at a getter that returns followed by a plain [null]. *)
Lemma handle_all_in_order_when_codes_read_witness :
  ∃ rs, Live.handle_all (Plain VNull) [error_with_code_getter; Plain VNull] []
        = (Done rs, [] ++ ((λ error, [Plain (VString "Client error:"); error])
                           <$> [error_with_code_getter; Plain VNull]))
        ∧ Forall2 (λ error r,
                     Live.message r = Plain (VString "An unexpected error occurred.")
                     ∧ ∃ V, read error "code" = Returns V
                            ∧ Live.code r = if Live.is_nullish V
                                            then Plain (VString "UNKNOWN") else V)
                  [error_with_code_getter; Plain VNull] rs.
Proof.
  apply (handle_all_in_order_when_codes_read (Plain VNull) [error_with_code_getter; Plain VNull] []).
  repeat constructor; eexists; reflexivity.
Defined.

End LiveHandleError.
